(** * kf command layer: space mutators and the route proxy

    A shallow embedding of [pkg/kf/commands/spaces/config_space.go] and
    [pkg/kf/commands/routes/proxy_route.go].

    Go mutators have type [func(space *v1alpha1.Space) error]: they update
    the space they are handed in place and return an error or nil.  They are
    embedded as state-passing functions [Space -> option error * Space]; the
    second component is the object as the mutator leaves it, whether or not
    an error is returned. *)

From stdpp Require Import base list strings pretty.

Set Default Proof Using "Type".

(** ** Strings and errors *)

(** Characters that cannot be written inside a string literal. *)
Definition nl : string := String (Ascii.ascii_of_nat 10) EmptyString.
Definition dquote : string := String (Ascii.ascii_of_nat 34) EmptyString.
Definition esc : string := String (Ascii.ascii_of_nat 27) EmptyString.

(** A Go [error] built by [fmt.Errorf] is identified with its message;
    [None] stands for [nil]. *)
Definition error : Type := string.

(** [strings.Join] *)
Fixpoint Join (elems : list string) (sep : string) : string :=
  match elems with
  | [] => ""
  | [e] => e
  | e :: rest => e +:+ sep +:+ Join rest sep
  end.

(** ** Data model (the fields of [v1alpha1.Space] the commands touch) *)

Module v1alpha1.

(** [corev1.EnvVar]; [ValueFrom] is a pointer, [None] when nil.  The
    source it points to is kept as an opaque description. *)
Record EnvVar : Type := mkEnvVar {
  Name : string;
  Value : string;
  ValueFrom : option string
}.

(** [v1alpha1.SpaceDomain] *)
Record SpaceDomain : Type := mkSpaceDomain {
  Domain : string;
  Default : bool
}.

(** [v1alpha1.SpaceDomains] is the named slice type [[]SpaceDomain]. *)
Definition SpaceDomains : Type := list SpaceDomain.

Record SpaceSpecBuildpackBuild : Type := mkBuildpackBuild {
  ContainerRegistry : string;
  BuilderImage : string;
  BuildEnv : list EnvVar
}.

Record SpaceSpecExecution : Type := mkExecution {
  Env : list EnvVar;
  Domains : list SpaceDomain
}.

Record SpaceSpec : Type := mkSpaceSpec {
  BuildpackBuild : SpaceSpecBuildpackBuild;
  Execution : SpaceSpecExecution
}.

Record Space : Type := mkSpace {
  SpaceName : string;
  Spec : SpaceSpec
}.

#[global] Instance EnvVar_eq_dec : EqDecision EnvVar.
Proof. solve_decision. Defined.
#[global] Instance SpaceDomain_eq_dec : EqDecision SpaceDomain.
Proof. solve_decision. Defined.

(** Field assignments through the pointer, written as functional
    updates. *)
Definition set_Default (b : bool) (d : SpaceDomain) : SpaceDomain :=
  {| Domain := Domain d; Default := b |}.

Definition set_ContainerRegistry (r : string) (s : Space) : Space :=
  {| SpaceName := SpaceName s;
     Spec := {| BuildpackBuild :=
                  {| ContainerRegistry := r;
                     BuilderImage := BuilderImage (BuildpackBuild (Spec s));
                     BuildEnv := BuildEnv (BuildpackBuild (Spec s)) |};
                Execution := Execution (Spec s) |} |}.

Definition set_BuilderImage (i : string) (s : Space) : Space :=
  {| SpaceName := SpaceName s;
     Spec := {| BuildpackBuild :=
                  {| ContainerRegistry := ContainerRegistry (BuildpackBuild (Spec s));
                     BuilderImage := i;
                     BuildEnv := BuildEnv (BuildpackBuild (Spec s)) |};
                Execution := Execution (Spec s) |} |}.

Definition set_BuildEnv (e : list EnvVar) (s : Space) : Space :=
  {| SpaceName := SpaceName s;
     Spec := {| BuildpackBuild :=
                  {| ContainerRegistry := ContainerRegistry (BuildpackBuild (Spec s));
                     BuilderImage := BuilderImage (BuildpackBuild (Spec s));
                     BuildEnv := e |};
                Execution := Execution (Spec s) |} |}.

Definition set_Env (e : list EnvVar) (s : Space) : Space :=
  {| SpaceName := SpaceName s;
     Spec := {| BuildpackBuild := BuildpackBuild (Spec s);
                Execution := {| Env := e;
                                Domains := Domains (Execution (Spec s)) |} |} |}.

Definition set_Domains (d : list SpaceDomain) (s : Space) : Space :=
  {| SpaceName := SpaceName s;
     Spec := {| BuildpackBuild := BuildpackBuild (Spec s);
                Execution := {| Env := Env (Execution (Spec s));
                                Domains := d |} |} |}.

(** Shorthands for the two paths the mutators read. *)
Definition domainsOf (s : Space) : list SpaceDomain := Domains (Execution (Spec s)).
Definition envOf (s : Space) : list EnvVar := Env (Execution (Spec s)).
Definition buildEnvOf (s : Space) : list EnvVar := BuildEnv (BuildpackBuild (Spec s)).

End v1alpha1.

Import v1alpha1.

(** ** Helpers of the repository that live outside the two command files *)

Module envutil.

(** Modelled from the spec: [envutil.RemoveEnvVars] (package
    [pkg/internal/envutil]) is not part of the two command files.  The
    spec describes setting a variable as "removed-then-appended" with the
    "order of remaining vars preserved, new/updated var placed last", and
    "unsetting a non-existent key is a no-op": an order-preserving filter
    that drops the variables whose name is one of [varNames]. *)
Definition RemoveEnvVars (varNames : list string) (envs : list EnvVar) : list EnvVar :=
  filter (λ e, Name e ∉ varNames) envs.

End envutil.

Module algorithms.

(** Two domain entries are the same element of the collection when they
    carry the same domain name (the flag is not part of the key). *)
Definition sameKey (x y : SpaceDomain) : Prop := Domain x = Domain y.

#[global] Instance sameKey_dec x y : Decision (sameKey x y).
Proof. unfold sameKey. apply _. Defined.

(** Modelled from the spec: [algorithms.Delete] (package
    [pkg/kf/algorithms]) and the [SpaceDomains] collection methods are not
    part of the two command files.  The spec describes the operation as
    "generic set difference keyed by domain name", "an explicit
    ordered-sequence filter": the entries of [a], in order, that share a
    name with no entry of [b]. *)
Definition Delete (a b : SpaceDomains) : SpaceDomains :=
  filter (λ x, Forall (λ y, ¬ sameKey x y) b) a.

End algorithms.

(** ** The mutator table of [config_space.go] *)

Module spaces.

(** [spaces.Mutator]: the error returned and the space as left behind. *)
Definition Mutator : Type := Space → option error * Space.

(** Result of a table entry's [Init]: indexing [args] out of range is a
    run-time panic in Go. *)
Inductive InitResult : Type :=
| InitOk (m : Mutator) (err : option error)
| InitPanic.

Record spaceMutator : Type := mkSpaceMutator {
  MName : string;
  Short : string;
  Args : list string;
  ExampleArgs : list string;
  Init : list string → InitResult
}.

(** *** set-container-registry, set-buildpack-builder *)

Definition setContainerRegistry (registry : string) : Mutator :=
  λ space, (None, set_ContainerRegistry registry space).

Definition newSetContainerRegistryMutator : spaceMutator :=
  {| MName := "set-container-registry";
     Short := "Set the container registry used for builds.";
     Args := ["REGISTRY"];
     ExampleArgs := ["gcr.io/my-project"];
     Init := λ args,
       match args !! 0 with
       | Some registry => InitOk (setContainerRegistry registry) None
       | None => InitPanic
       end |}.

Definition setBuildpackBuilder (image : string) : Mutator :=
  λ space, (None, set_BuilderImage image space).

Definition newSetBuildpackBuilderMutator : spaceMutator :=
  {| MName := "set-buildpack-builder";
     Short := "Set the buildpack builder image.";
     Args := ["BUILDER_IMAGE"];
     ExampleArgs := ["gcr.io/my-project/builder:latest"];
     Init := λ args,
       match args !! 0 with
       | Some image => InitOk (setBuildpackBuilder image) None
       | None => InitPanic
       end |}.

(** *** set-env, unset-env *)

Definition setEnv (name value : string) : Mutator :=
  λ space,
    let tmp := envutil.RemoveEnvVars [name] (envOf space) in
    (None, set_Env (tmp ++ [mkEnvVar name value None]) space).

Definition newSetEnvMutator : spaceMutator :=
  {| MName := "set-env";
     Short := "Set a space-wide environment variable.";
     Args := ["ENV_VAR_NAME"; "ENV_VAR_VALUE"];
     ExampleArgs := ["ENVIRONMENT"; "production"];
     Init := λ args,
       match args !! 0, args !! 1 with
       | Some name, Some value => InitOk (setEnv name value) None
       | _, _ => InitPanic
       end |}.

Definition unsetEnv (name : string) : Mutator :=
  λ space, (None, set_Env (envutil.RemoveEnvVars [name] (envOf space)) space).

Definition newUnsetEnvMutator : spaceMutator :=
  {| MName := "unset-env";
     Short := "Unset a space-wide environment variable.";
     Args := ["ENV_VAR_NAME"];
     ExampleArgs := ["ENVIRONMENT"];
     Init := λ args,
       match args !! 0 with
       | Some name => InitOk (unsetEnv name) None
       | None => InitPanic
       end |}.

(** *** set-buildpack-env, unset-buildpack-env *)

Definition setBuildpackEnv (name value : string) : Mutator :=
  λ space,
    let tmp := envutil.RemoveEnvVars [name] (buildEnvOf space) in
    (None, set_BuildEnv (tmp ++ [mkEnvVar name value None]) space).

Definition newSetBuildpackEnvMutator : spaceMutator :=
  {| MName := "set-buildpack-env";
     Short := "Set an environment variable for buildpack builds in a space.";
     Args := ["ENV_VAR_NAME"; "ENV_VAR_VALUE"];
     ExampleArgs := ["JDK_VERSION"; "11"];
     Init := λ args,
       match args !! 0, args !! 1 with
       | Some name, Some value => InitOk (setBuildpackEnv name value) None
       | _, _ => InitPanic
       end |}.

Definition unsetBuildpackEnv (name : string) : Mutator :=
  λ space,
    (None, set_BuildEnv (envutil.RemoveEnvVars [name] (buildEnvOf space)) space).

Definition newUnsetBuildpackEnvMutator : spaceMutator :=
  {| MName := "unset-buildpack-env";
     Short := "Unset an environment variable for buildpack builds in a space.";
     Args := ["ENV_VAR_NAME"];
     ExampleArgs := ["JDK_VERSION"];
     Init := λ args,
       match args !! 0 with
       | Some name => InitOk (unsetBuildpackEnv name) None
       | None => InitPanic
       end |}.

(** *** append-domain *)

(** The composite literal [v1alpha1.SpaceDomain{Domain: domain}] leaves
    [Default] at its zero value. *)
Definition appendDomain (domain : string) : Mutator :=
  λ space,
    (None, set_Domains (domainsOf space ++ [mkSpaceDomain domain false]) space).

Definition newAppendDomainMutator : spaceMutator :=
  {| MName := "append-domain";
     Short := "Append a domain for a space";
     Args := ["DOMAIN"];
     ExampleArgs := ["myspace.mycompany.com"];
     Init := λ args,
       match args !! 0 with
       | Some domain => InitOk (appendDomain domain) None
       | None => InitPanic
       end |}.

(** *** set-default-domain *)

(** One iteration of [for i, d := range space.Spec.Execution.Domains]:
    [d] is the element at index [i]; the body writes
    [Domains[i].Default] in place and may raise [found].  The range
    clause only yields indices below the length, so the lookup cannot
    fail; a failed lookup leaves the state alone. *)
Definition setDefaultStep (domain : string)
    (st : list SpaceDomain * bool) (i : nat) : list SpaceDomain * bool :=
  let '(ds, found) := st in
  match ds !! i with
  | Some d =>
      if decide (Domain d ≠ domain)
      then (<[i := set_Default false d]> ds, found)
      else (<[i := set_Default true d]> ds, true)
  | None => st
  end.

(** The whole loop, with [var found bool] starting at false. *)
Definition setDefaultLoop (domain : string) (ds : list SpaceDomain)
    : list SpaceDomain * bool :=
  foldl (setDefaultStep domain) (ds, false) (seq 0 (length ds)).

Definition setDefaultDomain (domain : string) : Mutator :=
  λ space,
    let '(ds, found) := setDefaultLoop domain (domainsOf space) in
    let space' := set_Domains ds space in
    if negb found
    then (Some ("failed to find domain " +:+ domain), space')
    else (None, space').

Definition newSetDefaultDomainMutator : spaceMutator :=
  {| MName := "set-default-domain";
     Short := "Set a default domain for a space";
     Args := ["DOMAIN"];
     ExampleArgs := ["myspace.mycompany.com"];
     Init := λ args,
       match args !! 0 with
       | Some domain => InitOk (setDefaultDomain domain) None
       | None => InitPanic
       end |}.

(** *** remove-domain *)

Definition removeDomain (domain : string) : Mutator :=
  λ space,
    (None,
     set_Domains
       (algorithms.Delete (domainsOf space) [mkSpaceDomain domain false])
       space).

Definition newRemoveDomainMutator : spaceMutator :=
  {| MName := "remove-domain";
     Short := "Remove a domain from a space";
     Args := ["DOMAIN"];
     ExampleArgs := ["myspace.mycompany.com"];
     Init := λ args,
       match args !! 0 with
       | Some domain => InitOk (removeDomain domain) None
       | None => InitPanic
       end |}.

(** The table built in [NewConfigSpaceCommand]. *)
Definition subcommands : list spaceMutator :=
  [ newSetEnvMutator; newUnsetEnvMutator;
    newSetBuildpackEnvMutator; newUnsetBuildpackEnvMutator;
    newSetContainerRegistryMutator; newSetBuildpackBuilderMutator;
    newAppendDomainMutator; newSetDefaultDomainMutator;
    newRemoveDomainMutator ].

(** [Use] and [Example] strings of [ToCommand]. *)
Definition commandUse (sm : spaceMutator) : string :=
  MName sm +:+ " SPACE_NAME " +:+ Join (Args sm) " ".

Definition commandExample (sm : spaceMutator) : string :=
  "kf configure-space " +:+ MName sm +:+ " my-space " +:+ Join (ExampleArgs sm) " ".

(** [cobra.ExactArgs(1 + len(sm.Args))] *)
Definition commandArity (sm : spaceMutator) : nat := 1 + length (Args sm).

(** Number of entries flagged default. *)
Definition countDefault (ds : list SpaceDomain) : nat :=
  length (filter (λ d, Default d = true) ds).

(** What the loop of set-default-domain does to a single entry: the flag
    becomes true exactly when the name is the requested one. *)
Definition markDefault (domain : string) (d : SpaceDomain) : SpaceDomain :=
  set_Default (bool_decide (Domain d = domain)) d.

(** Some entry carries the given name. *)
Definition hasDomain (domain : string) (ds : list SpaceDomain) : Prop :=
  Exists (λ d, Domain d = domain) ds.

#[global] Instance hasDomain_dec domain ds : Decision (hasDomain domain ds).
Proof. unfold hasDomain. apply _. Defined.

(** Number of entries carrying a given name. *)
Definition countNamed (domain : string) (ds : list SpaceDomain) : nat :=
  length (filter (λ d, Domain d = domain) ds).

(** [new] is [old] with the variable [name] replaced or inserted: every
    variable called [name] is gone from its place, [name=value] sits at the
    end and is the only variable of that name, and the other variables are
    the same in the same order. *)
Definition replacedOrInserted (name value : string) (old new : list EnvVar) : Prop :=
  new = filter (λ e, Name e ≠ name) old ++ [mkEnvVar name value None]
  ∧ filter (λ e, Name e = name) new = [mkEnvVar name value None]
  ∧ filter (λ e, Name e ≠ name) new = filter (λ e, Name e ≠ name) old
  ∧ last new = Some (mkEnvVar name value None).

(** ** Concrete spaces used to exercise the mutators *)

Definition spaceWith (env : list EnvVar) (ds : list SpaceDomain) : Space :=
  mkSpace "my-space"
    (mkSpaceSpec (mkBuildpackBuild "gcr.io/my-project" "builder:latest" env)
                 (mkExecution env ds)).

(** Two entries with the same name, as two append-domain calls leave
    them. *)
Definition duplicateSpace : Space :=
  spaceWith [] [mkSpaceDomain "a.com" false; mkSpaceDomain "a.com" false].

(** A single entry, flagged default. *)
Definition singleDefaultSpace : Space :=
  spaceWith [] [mkSpaceDomain "a.com" true].

(** Two distinct names, the first one default. *)
Definition twoDomainSpace : Space :=
  spaceWith [] [mkSpaceDomain "a.com" true; mkSpaceDomain "b.com" false].

(** Two variables in both environment lists, no domain. *)
Definition twoVarSpace : Space :=
  spaceWith [mkEnvVar "A" "1" None; mkEnvVar "B" "2" None] [].

End spaces.


Module istio.

(** Modelled from the spec: [istio.ExtractIngressFromList] (package
    [pkg/kf/istio]) is not part of the two command files.  The spec gives
    its contract as [resolve(candidates[]) -> (gateway, error)]: exactly one
    candidate is returned as it is, zero candidates is the error
    "no gateway found", more than one is the error
    "ambiguous gateway, specify explicitly".  The Go pair is embedded as a
    sum: [inl gateway] when the error is nil, [inr err] otherwise. *)
Definition ExtractIngressFromList (candidates : list string) : string + error :=
  match candidates with
  | [] => inr "no gateway found"
  | [gateway] => inl gateway
  | _ :: _ :: _ => inr "ambiguous gateway, specify explicitly"
  end.

End istio.

(** ** The proxy command of [proxy_route.go] *)

Module routes.

(** *** Requests and the director *)

(** The fields of [url.URL] that [RequestURI] reads or the director
    writes; [Path] stands for the path in its escaped form. *)
Record URL : Type := mkURL {
  Scheme : string;
  Opaque : string;
  UHost : string;
  Path : string;
  ForceQuery : bool;
  RawQuery : string
}.

(** [http.Request]: [Host] is the request's own host field, [ReqURL.UHost]
    the address the transport dials. *)
Record Request : Type := mkRequest {
  Method : string;
  ReqURL : URL;
  Header : list (string * list string);
  Body : string;
  Host : string
}.

Definition hasPrefix (s pre : string) : bool :=
  bool_decide (String.substring 0 (String.length pre) s = pre).

(** The [RequestURI] method of [url.URL] in the Go standard library. *)
Definition RequestURI (u : URL) : string :=
  let result :=
    if decide (Opaque u = "")
    then (if decide (Path u = "") then "/" else Path u)
    else (if hasPrefix (Opaque u) "//"
          then Scheme u +:+ ":" +:+ Opaque u
          else Opaque u) in
  if ForceQuery u || bool_decide (RawQuery u ≠ "")
  then result +:+ "?" +:+ RawQuery u
  else result.

(** A line handed to the [log.Logger]: its prefix and the formatted
    message.  The time stamp added by [log.Ltime] is left out. *)
Record LogLine : Type := mkLogLine {
  LPrefix : string;
  LMessage : string
}.

(** [httputil.ReverseProxy], reduced to its [Director]: the request as the
    director leaves it and the line it logs. *)
Record ReverseProxy : Type := mkReverseProxy {
  Director : Request → Request * LogLine
}.

Definition loggerPrefix (routeHost gateway : string) : string :=
  esc +:+ "[34m[" +:+ routeHost +:+ " via " +:+ gateway +:+ "]" +:+ esc +:+ "[0m ".

Definition createProxy (routeHost gateway : string) : ReverseProxy :=
  {| Director := λ req,
       (* req.Host = routeHost *)
       let req1 := {| Method := Method req; ReqURL := ReqURL req;
                      Header := Header req; Body := Body req;
                      Host := routeHost |} in
       (* req.URL.Scheme = "http" *)
       let u1 := {| Scheme := "http"; Opaque := Opaque (ReqURL req1);
                    UHost := UHost (ReqURL req1); Path := Path (ReqURL req1);
                    ForceQuery := ForceQuery (ReqURL req1);
                    RawQuery := RawQuery (ReqURL req1) |} in
       (* req.URL.Host = gateway *)
       let u2 := {| Scheme := Scheme u1; Opaque := Opaque u1;
                    UHost := gateway; Path := Path u1;
                    ForceQuery := ForceQuery u1; RawQuery := RawQuery u1 |} in
       let req2 := {| Method := Method req1; ReqURL := u2;
                      Header := Header req1; Body := Body req1;
                      Host := Host req1 |} in
       (req2,
        {| LPrefix := loggerPrefix routeHost gateway;
           LMessage := Method req2 +:+ " " +:+ RequestURI (ReqURL req2) +:+ nl |}) |}.

(** *** The command body *)

(** [net.Listener], by the address [listener.Addr()] prints as. *)
Record Listener : Type := mkListener {
  Addr : string
}.

(** What the command does to the outside, in order. *)
Inductive Event : Type :=
| SilenceUsage
| Fprint (s : string)
| Listen (network address : string)
| Serve (l : Listener) (routeHost gateway : string).

(** How [RunE] ends: it returns an error (or nil), or indexing [args]
    panics. *)
Inductive Exit : Type :=
| Return (err : option error)
| Panic.

(** What the collaborators answer: [utils.ValidateNamespace(p)],
    [ingressLister.ListIngresses()], [net.Listen] and the error
    [http.Serve] returns once its accept loop stops. *)
Record World : Type := mkWorld {
  validateNamespace : option error;
  listIngresses : list string;
  netListen : string → string → Listener + error;
  httpServe : Listener → error
}.

(** The three flags of the command. *)
Record Flags : Type := mkFlags {
  gateway : string;
  port : Z;
  noStart : bool
}.

(** Commands as a trace of events followed by a value or an early exit. *)
Definition Cmd (A : Type) : Type := (list Event * (A + Exit))%type.

#[global] Instance Cmd_ret : MRet Cmd := λ A a, ([], inl a).

#[global] Instance Cmd_bind : MBind Cmd := λ A B k m,
  match m with
  | (ev, inl a) => let '(ev', r) := k a in (ev ++ ev', r)
  | (ev, inr e) => (ev, inr e)
  end.

Definition emit (e : Event) : Cmd unit := ([e], inl tt).
Definition exit {A : Type} (e : Exit) : Cmd A := ([], inr e).

(** [if err != nil { return err }] *)
Definition failOn (err : option error) : Cmd unit :=
  match err with
  | Some e => exit (Return (Some e))
  | None => mret tt
  end.

Definition orReturn {A : Type} (r : A + error) : Cmd A :=
  match r with
  | inl a => mret a
  | inr e => exit (Return (Some e))
  end.

(** [args[i]] *)
Definition index (args : list string) (i : nat) : Cmd string :=
  match args !! i with
  | Some a => mret a
  | None => exit Panic
  end.

(** The lines printed once the listener is bound. *)
Definition banner (addr gateway host : string) : list string :=
  [ "Forwarding requests from " +:+ addr +:+ " to " +:+ gateway +:+ " with host " +:+ host +:+ nl;
    "Example GET:" +:+ nl;
    "  curl " +:+ addr +:+ nl;
    "  (curl -H " +:+ dquote +:+ "Host: " +:+ host +:+ dquote +:+ " http://" +:+ gateway +:+ ")" +:+ nl;
    "Example POST:" +:+ nl;
    "  curl --request POST " +:+ addr +:+ " --data " +:+ dquote +:+ "POST data" +:+ dquote +:+ nl;
    "  (curl --request POST -H " +:+ dquote +:+ "Host: " +:+ host +:+ dquote
      +:+ " http://" +:+ gateway +:+ " --data " +:+ dquote +:+ "POST data" +:+ dquote +:+ ")" +:+ nl;
    "Browser link:" +:+ nl;
    "  http://" +:+ addr +:+ nl;
    nl ].

Definition printAll (lines : list string) : Cmd unit :=
  (map Fprint lines, inl tt).

Definition autodetectMessage : string :=
  "Autodetecting app gateway. Specify a custom gateway using the --gateway flag." +:+ nl.

Definition noStartMessage : string :=
  "exiting because no-start flag was provided" +:+ nl.

Definition listenAddress (p : Z) : string := "127.0.0.1:" +:+ pretty p.

(** The [if gateway == ""] block: the flag value, or the autodetected
    ingress. *)
Definition resolveGateway (w : World) (f : Flags) : Cmd string :=
  if decide (gateway f = "")
  then emit (Fprint autodetectMessage);;
       orReturn (istio.ExtractIngressFromList (listIngresses w))
  else mret (gateway f).

(** The [RunE] closure of [NewProxyRouteCommand]. *)
Definition RunE (w : World) (f : Flags) (args : list string) : Cmd Empty_set :=
  failOn (validateNamespace w);;
  host ← index args 0;
  emit SilenceUsage;;
  gw ← resolveGateway w f;
  emit (Listen "tcp" (listenAddress (port f)));;
  listener ← orReturn (netListen w "tcp" (listenAddress (port f)));
  printAll (banner (Addr listener) gw host);;
  (if noStart f
   then emit (Fprint noStartMessage);; exit (Return None)
   else emit (Serve listener host gw);;
        exit (Return (Some (httpServe w listener)))).

(** The trace and the way the command ended. *)
Definition outcome (c : Cmd Empty_set) : list Event * Exit :=
  match c with
  | (ev, inr e) => (ev, e)
  | (_, inl v) => match v with end
  end.


(** *** A concrete dry run *)

(** A cluster with a single ingress, a free local port, and the flags of a
    dry run on the default port. *)
Definition singleIngressWorld : World :=
  {| validateNamespace := None;
     listIngresses := ["10.0.0.5:80"];
     netListen := λ _ address, inl (mkListener address);
     httpServe := λ _, "http: Server closed" |}.

Definition dryRunFlags : Flags :=
  {| gateway := ""; port := 8080; noStart := true |}.



(** The flags of a real run on the default port, gateway autodetected. *)
Definition serveFlags : Flags :=
  {| gateway := ""; port := 8080; noStart := false |}.

(** *** Reading a trace *)

(** The [http.Serve] calls of a trace, with the listener, the route host
    and the gateway of the proxy each was started with. *)
Definition served (trace : list Event) : list (Listener * string * string) :=
  omap (λ e, match e with Serve l h g => Some (l, h, g) | _ => None end) trace.


(** What a trace wrote to the command's output. *)
Definition printed (trace : list Event) : list string :=
  omap (λ e, match e with Fprint s => Some s | _ => None end) trace.

(** The same collaborators with another answer from the ingress lister. *)
Definition withIngresses (w : World) (ingresses : list string) : World :=
  {| validateNamespace := validateNamespace w;
     listIngresses := ingresses;
     netListen := netListen w;
     httpServe := httpServe w |}.

End routes.


(** ** The commands built from the two tables of [config_space.go] *)

Module spaces_cmd.
Import spaces.

(** *** Accessors *)

(** What an [Accessor] hands to the YAML marshaller: the [interface{}]
    holds a string, a list of variables or a list of domains. *)
Inductive Value : Type :=
| VString (s : string)
| VEnvVars (env : list EnvVar)
| VDomains (ds : list SpaceDomain).

Record spaceAccessor : Type := mkSpaceAccessor {
  AName : string;
  AShort : string;
  Accessor : Space → Value
}.

Definition newGetContainerRegistryAccessor : spaceAccessor :=
  {| AName := "get-container-registry";
     AShort := "Get the container registry used for builds.";
     Accessor := λ space, VString (ContainerRegistry (BuildpackBuild (Spec space))) |}.

Definition newGetBuildpackBuilderAccessor : spaceAccessor :=
  {| AName := "get-buildpack-builder";
     AShort := "Get the buildpack builder used for builds.";
     Accessor := λ space, VString (BuilderImage (BuildpackBuild (Spec space))) |}.

Definition newGetExecutionEnvAccessor : spaceAccessor :=
  {| AName := "get-execution-env";
     AShort := "Get the space-wide environment variables.";
     Accessor := λ space, VEnvVars (Env (Execution (Spec space))) |}.

Definition newGetBuildpackEnvAccessor : spaceAccessor :=
  {| AName := "get-buildpack-env";
     AShort := "Get the environment variables for buildpack builds in a space.";
     Accessor := λ space, VEnvVars (BuildEnv (BuildpackBuild (Spec space))) |}.

Definition newGetDomainsAccessor : spaceAccessor :=
  {| AName := "get-domains";
     AShort := "Get domains associated with the space.";
     Accessor := λ space, VDomains (Domains (Execution (Spec space))) |}.

(** The table built in [NewConfigSpaceCommand]. *)
Definition accessors : list spaceAccessor :=
  [ newGetContainerRegistryAccessor; newGetBuildpackBuilderAccessor;
    newGetExecutionEnvAccessor; newGetBuildpackEnvAccessor;
    newGetDomainsAccessor ].

Definition accessorUse (sa : spaceAccessor) : string := AName sa +:+ " SPACE_NAME".

Definition accessorExample (sa : spaceAccessor) : string :=
  "kf configure-space " +:+ AName sa +:+ " my-space".

(** *** Collaborators *)

(** The [spaces.Client] interface, by the two methods the commands call.
    [Transform] returns the stored space (a pointer, [None] when nil) and an
    error. *)
Record Client : Type := mkClient {
  ClientGet : string → Space + error;
  ClientTransform : string → Mutator → option Space * option error
}.

(** Formatting done outside the file: [spaces.DiffWrapper] with the
    command's writer already supplied, [k8syaml.Marshal], and [%#v]. *)
Record Formatting : Type := mkFormatting {
  DiffWrapper : Mutator → Mutator;
  Marshal : Value → string + error;
  GoSyntax : Value → string
}.

(** What a command does to the outside, in order. *)
Inductive Event : Type :=
| SilenceUsage
| CallTransform (spaceName : string) (m : Mutator)
| CallGet (spaceName : string)
| Fprint (s : string).

(** *** [RunE] of [spaceMutator.ToCommand] *)

Definition mutatorRunE (fm : Formatting) (sm : spaceMutator) (client : Client)
    (args : list string) : list Event * routes.Exit :=
  match args !! 0 with
  | None => ([], routes.Panic)
  | Some spaceName =>
      (* args[1:] *)
      match Init sm (drop 1 args) with
      | InitPanic => ([], routes.Panic)
      | InitOk _ (Some err) => ([], routes.Return (Some err))
      | InitOk mutator None =>
          let diffPrintingMutator := DiffWrapper fm mutator in
          ([SilenceUsage; CallTransform spaceName diffPrintingMutator],
           routes.Return (ClientTransform client spaceName diffPrintingMutator).2)
      end
  end.

(** *** [RunE] of [spaceAccessor.ToCommand] *)

Definition accessorRunE (fm : Formatting) (sa : spaceAccessor) (client : Client)
    (args : list string) : list Event * routes.Exit :=
  match args !! 0 with
  | None => ([], routes.Panic)
  | Some spaceName =>
      match ClientGet client spaceName with
      | inr err => ([SilenceUsage; CallGet spaceName], routes.Return (Some err))
      | inl space =>
          let out := Accessor sa space in
          match Marshal fm out with
          | inr err =>
              ([SilenceUsage; CallGet spaceName; Fprint (GoSyntax fm out)],
               routes.Return (Some ("couldn't convert value to YAML: " +:+ err)))
          | inl m =>
              ([SilenceUsage; CallGet spaceName; Fprint m], routes.Return None)
          end
      end
  end.

(** The [Transform] calls of a trace, by space name. *)
Definition transformed (trace : list Event) : list string :=
  omap (λ e, match e with CallTransform n _ => Some n | _ => None end) trace.

(** *** Concrete collaborators *)

(** A client whose store holds [twoDomainSpace] under every name and whose
    [Transform] reports the mutator's own error. *)
Definition fixedClient : Client :=
  {| ClientGet := λ _, inl twoDomainSpace;
     ClientTransform := λ _ m, (Some (m twoDomainSpace).2, (m twoDomainSpace).1) |}.

(** No diff output; every value marshals to its Go-syntax text. *)
Definition plainFormatting : Formatting :=
  {| DiffWrapper := λ m, m;
     Marshal := λ v, inl (match v with
                          | VString s => s +:+ nl
                          | VEnvVars _ => "env" +:+ nl
                          | VDomains _ => "domains" +:+ nl
                          end);
     GoSyntax := λ _, "" |}.

End spaces_cmd.


(** * Properties of the space mutators *)

Module spaces_facts.
Import spaces.

(** ** Record plumbing *)

Lemma set_Domains_id (space : Space) : set_Domains (domainsOf space) space = space.
Proof. by destruct space as [n [b [e d]]]. Qed.

Lemma set_Env_id (space : Space) : set_Env (envOf space) space = space.
Proof. by destruct space as [n [b [e d]]]. Qed.

Lemma set_BuildEnv_id (space : Space) : set_BuildEnv (buildEnvOf space) space = space.
Proof. by destruct space as [n [[r i b] x]]. Qed.

Lemma domainsOf_set_Domains ds space : domainsOf (set_Domains ds space) = ds.
Proof. done. Qed.

Lemma set_Domains_twice ds1 ds2 space :
  set_Domains ds2 (set_Domains ds1 space) = set_Domains ds2 space.
Proof. done. Qed.

(** ** The loop of set-default-domain, index by index *)

Lemma hasDomain_nil domain : ¬ hasDomain domain [].
Proof. unfold hasDomain. intros H. by apply Exists_nil in H. Qed.

Lemma hasDomain_cons domain d ds :
  hasDomain domain (d :: ds) ↔ Domain d = domain ∨ hasDomain domain ds.
Proof. unfold hasDomain. apply Exists_cons. Qed.

Lemma hasDomain_elem_of domain ds :
  hasDomain domain ds ↔ ∃ d, d ∈ ds ∧ Domain d = domain.
Proof. unfold hasDomain. apply Exists_exists. Qed.

(** Invariant of the range loop: once the indices below [length done_] have
    been visited, that prefix is marked and the rest is as it was. *)
Lemma setDefault_foldl domain (done_ rest : list SpaceDomain) (found : bool) :
  foldl (setDefaultStep domain)
        ((markDefault domain <$> done_) ++ rest, found)
        (seq (length done_) (length rest))
  = (markDefault domain <$> (done_ ++ rest),
     found || bool_decide (hasDomain domain rest)).
Proof.
  revert done_ found. induction rest as [| d rest IH]; intros done_ found.
  - cbn [length seq foldl]. rewrite !app_nil_r.
    rewrite (bool_decide_eq_false_2 _ (hasDomain_nil domain)).
    by rewrite orb_false_r.
  - cbn [length seq foldl]. unfold setDefaultStep at 2.
    assert (Hlen : length (markDefault domain <$> done_) = length done_)
      by apply length_fmap.
    rewrite (list_lookup_middle _ _ d (length done_)) by done.
    assert (Hins : ∀ x, <[length done_ := x]> ((markDefault domain <$> done_) ++ d :: rest)
                        = (markDefault domain <$> done_) ++ x :: rest).
    { intros x. rewrite insert_app_r_alt by lia.
      by rewrite Hlen, Nat.sub_diag. }
    assert (Hshift : ∀ b, b = bool_decide (Domain d = domain) →
      (markDefault domain <$> done_) ++ set_Default b d :: rest
      = (markDefault domain <$> (done_ ++ [d])) ++ rest).
    { intros b ->. by rewrite fmap_app, <- app_assoc. }
    assert (Hnext : S (length done_) = length (done_ ++ [d]))
      by (rewrite length_app; simpl; lia).
    destruct (decide (Domain d ≠ domain)) as [Hne | Heq].
    + rewrite Hins, Hshift by (by rewrite bool_decide_eq_false_2).
      rewrite Hnext, IH, <- app_assoc.
      f_equal. f_equal. apply bool_decide_ext. rewrite hasDomain_cons. tauto.
    + apply dec_stable in Heq.
      rewrite Hins, Hshift by (by rewrite bool_decide_eq_true_2).
      rewrite Hnext, IH, <- app_assoc.
      f_equal. cbn [orb].
      rewrite (bool_decide_eq_true_2 (hasDomain domain (d :: rest)))
        by (apply hasDomain_cons; by left).
      by rewrite orb_true_r.
Qed.

(** The loop is a map over the entries, and [found] says whether the name
    occurs. *)
Lemma setDefaultLoop_spec domain (ds : list SpaceDomain) :
  setDefaultLoop domain ds
  = (markDefault domain <$> ds, bool_decide (hasDomain domain ds)).
Proof.
  unfold setDefaultLoop. apply (setDefault_foldl domain [] ds false).
Qed.

Lemma setDefaultDomain_found domain space :
  hasDomain domain (domainsOf space) →
  setDefaultDomain domain space
  = (None, set_Domains (markDefault domain <$> domainsOf space) space).
Proof.
  intros H. unfold setDefaultDomain. rewrite setDefaultLoop_spec.
  by rewrite bool_decide_eq_true_2.
Qed.

Lemma setDefaultDomain_missing domain space :
  ¬ hasDomain domain (domainsOf space) →
  setDefaultDomain domain space
  = (Some ("failed to find domain " +:+ domain),
     set_Domains (markDefault domain <$> domainsOf space) space).
Proof.
  intros H. unfold setDefaultDomain. rewrite setDefaultLoop_spec.
  by rewrite bool_decide_eq_false_2.
Qed.

(** ** What marking does to a list of entries *)

Lemma markDefault_Domain domain d : Domain (markDefault domain d) = Domain d.
Proof. done. Qed.

Lemma markDefault_Default domain d :
  Default (markDefault domain d) = true ↔ Domain d = domain.
Proof. unfold markDefault. simpl. apply bool_decide_eq_true. Qed.

Lemma markDefault_other domain d :
  Domain d ≠ domain → markDefault domain d = set_Default false d.
Proof. intros H. unfold markDefault. by rewrite bool_decide_eq_false_2. Qed.

Lemma hasDomain_mark domain domain' ds :
  hasDomain domain (markDefault domain' <$> ds) ↔ hasDomain domain ds.
Proof.
  induction ds as [| d ds IH]; [done |].
  rewrite fmap_cons, !hasDomain_cons, IH. by rewrite markDefault_Domain.
Qed.

Lemma countDefault_mark domain ds :
  countDefault (markDefault domain <$> ds) = countNamed domain ds.
Proof.
  unfold countDefault, countNamed.
  induction ds as [| d ds IH]; [done |].
  rewrite fmap_cons, !filter_cons.
  destruct (decide (Domain d = domain)) as [Hd | Hd].
  - rewrite decide_True by (by apply markDefault_Default). simpl. by rewrite IH.
  - rewrite decide_False by (by rewrite markDefault_Default). done.
Qed.

Lemma countNamed_pos domain ds : hasDomain domain ds → 1 ≤ countNamed domain ds.
Proof.
  unfold countNamed. induction ds as [| d ds IH].
  - intros H. by apply hasDomain_nil in H.
  - rewrite hasDomain_cons, filter_cons. intros [Hd | Hds].
    + rewrite decide_True by done. simpl. lia.
    + destruct (decide (Domain d = domain)); simpl; [lia | auto].
Qed.

Lemma mark_missing domain ds :
  ¬ hasDomain domain ds → markDefault domain <$> ds = set_Default false <$> ds.
Proof.
  intros H. apply list_fmap_ext. intros i d Hd.
  apply markDefault_other. intros Hn. apply H.
  apply hasDomain_elem_of. exists d. split; [| done].
  by apply list_elem_of_lookup_2 in Hd.
Qed.

Lemma clear_noop (ds : list SpaceDomain) :
  (∀ d, d ∈ ds → Default d = false) → set_Default false <$> ds = ds.
Proof.
  intros H. induction ds as [| d ds IH]; [done |].
  rewrite fmap_cons, IH.
  - f_equal. destruct d as [n b]. unfold set_Default. simpl.
    f_equal. symmetry. apply (H (mkSpaceDomain n b)). apply elem_of_cons. by left.
  - intros x Hx. apply H. apply elem_of_cons. by right.
Qed.

(** ** Filtering *)

Lemma filter_all {A} (P : A → Prop) `{!∀ x, Decision (P x)} (l : list A) :
  (∀ x, x ∈ l → P x) → filter P l = l.
Proof.
  intros Hall. induction l as [| a l IH]; [done |].
  rewrite filter_cons_True by (apply Hall, elem_of_cons; by left).
  f_equal. apply IH. intros x Hx. apply Hall, elem_of_cons. by right.
Qed.

Lemma filter_none {A} (P : A → Prop) `{!∀ x, Decision (P x)} (l : list A) :
  (∀ x, x ∈ l → ¬ P x) → filter P l = [].
Proof.
  intros Hall. induction l as [| a l IH]; [done |].
  rewrite filter_cons_False by (apply Hall, elem_of_cons; by left).
  apply IH. intros x Hx. apply Hall, elem_of_cons. by right.
Qed.

Lemma Delete_single domain b (ds : list SpaceDomain) :
  algorithms.Delete ds [mkSpaceDomain domain b] = filter (λ d, Domain d ≠ domain) ds.
Proof.
  unfold algorithms.Delete. apply list_filter_iff. intros x.
  rewrite Forall_singleton. done.
Qed.

Lemma RemoveEnvVars_single name (env : list EnvVar) :
  envutil.RemoveEnvVars [name] env = filter (λ e, Name e ≠ name) env.
Proof.
  unfold envutil.RemoveEnvVars. apply list_filter_iff. intros x.
  by rewrite list_elem_of_singleton.
Qed.

End spaces_facts.

Import spaces spaces_facts.

(** ** set-default-domain *)

(** C1, as the spec words it, fails on the code: with two entries named
    [a.com], set-default-domain [a.com] finds a match, succeeds, and leaves
    two entries flagged default, not one. *)
Lemma set_default_duplicate_names_counterexample :
  hasDomain "a.com" (domainsOf duplicateSpace)
  ∧ (setDefaultDomain "a.com" duplicateSpace).1 = None
  ∧ domainsOf (setDefaultDomain "a.com" duplicateSpace).2
    = [mkSpaceDomain "a.com" true; mkSpaceDomain "a.com" true]
  ∧ countDefault (domainsOf (setDefaultDomain "a.com" duplicateSpace).2) = 2
  ∧ countDefault (domainsOf (setDefaultDomain "a.com" duplicateSpace).2) ≠ 1.
Proof.
  split; [| by vm_compute].
  apply hasDomain_cons. by left.
Qed.

(** C1 (amended): when the name given to set-default-domain matches at least
    one entry, the mutator succeeds, touches nothing but the domain list,
    and leaves every entry in place with its flag true exactly when its name
    equals the argument.  The number of default entries afterwards is the
    number of entries carrying that name, which is at least one: exactly one
    entry is default when the name is unique in the list. *)
Theorem set_default_marks_named_entries (space : Space) (domain : string) :
  hasDomain domain (domainsOf space) →
  let r := setDefaultDomain domain space in
  r.1 = None
  ∧ r.2 = set_Domains (domainsOf r.2) space
  ∧ length (domainsOf r.2) = length (domainsOf space)
  ∧ (∀ i d, domainsOf space !! i = Some d →
       domainsOf r.2 !! i
       = Some {| Domain := Domain d; Default := bool_decide (Domain d = domain) |})
  ∧ (∀ d, d ∈ domainsOf r.2 → (Default d = true ↔ Domain d = domain))
  ∧ countDefault (domainsOf r.2) = countNamed domain (domainsOf space)
  ∧ 1 ≤ countDefault (domainsOf r.2)
  ∧ (countNamed domain (domainsOf space) = 1 → countDefault (domainsOf r.2) = 1).
Proof.
  intros Hhas r. subst r. rewrite setDefaultDomain_found by done.
  cbn [fst snd]. rewrite domainsOf_set_Domains.
  pose proof (countDefault_mark domain (domainsOf space)) as Hcount.
  pose proof (countNamed_pos domain _ Hhas) as Hpos.
  repeat split.
  - apply length_fmap.
  - intros i d Hd. rewrite list_lookup_fmap, Hd. done.
  - revert H. intros (d0 & -> & _)%list_elem_of_fmap Hdef.
    by apply markDefault_Default in Hdef.
  - revert H. intros (d0 & -> & _)%list_elem_of_fmap Hname.
    by apply markDefault_Default.
  - done.
  - lia.
  - lia.
Qed.

Lemma set_default_marks_named_entries_witness :
  hasDomain "b.com" (domainsOf twoDomainSpace)
  ∧ countDefault (domainsOf (setDefaultDomain "b.com" twoDomainSpace).2) = 1.
Proof.
  assert (Hhas : hasDomain "b.com" (domainsOf twoDomainSpace)).
  { apply hasDomain_cons. right. apply hasDomain_cons. by left. }
  split; [exact Hhas |].
  apply (set_default_marks_named_entries _ _ Hhas). reflexivity.
Defined.

(** C2, as the spec words it, fails on the code: the loop clears the flag of
    every entry whose name differs before the missing name is reported, so a
    space whose only entry [a.com] is the default comes out of
    set-default-domain [b.com] with the error and with no default at all. *)
Lemma set_default_missing_counterexample :
  ¬ hasDomain "b.com" (domainsOf singleDefaultSpace)
  ∧ (setDefaultDomain "b.com" singleDefaultSpace).1 = Some "failed to find domain b.com"
  ∧ domainsOf (setDefaultDomain "b.com" singleDefaultSpace).2
    = [mkSpaceDomain "a.com" false]
  ∧ (setDefaultDomain "b.com" singleDefaultSpace).2 ≠ singleDefaultSpace.
Proof.
  split; [| by vm_compute].
  intros [H | H%hasDomain_nil]%hasDomain_cons; done.
Qed.

(** C2 (amended): when the name given to set-default-domain matches no
    entry, the mutator returns the error "failed to find domain <name>";
    the entries keep their names and their order and nothing outside the
    domain list changes, but every entry's default flag is false afterwards.
    The object is left as it was exactly when no entry was flagged default
    beforehand. *)
Theorem set_default_missing_clears_flags (space : Space) (domain : string) :
  ¬ hasDomain domain (domainsOf space) →
  let r := setDefaultDomain domain space in
  r.1 = Some ("failed to find domain " +:+ domain)
  ∧ r.2 = set_Domains (set_Default false <$> domainsOf space) space
  ∧ Domain <$> domainsOf r.2 = Domain <$> domainsOf space
  ∧ (∀ d, d ∈ domainsOf r.2 → Default d = false)
  ∧ (r.2 = space ↔ ∀ d, d ∈ domainsOf space → Default d = false).
Proof.
  intros Hmiss r. subst r. rewrite setDefaultDomain_missing by done.
  cbn [fst snd]. rewrite mark_missing by done.
  rewrite domainsOf_set_Domains.
  assert (Hclear : ∀ d, d ∈ set_Default false <$> domainsOf space → Default d = false).
  { intros d (d0 & -> & _)%list_elem_of_fmap. done. }
  repeat split.
  - rewrite <- list_fmap_compose. by apply list_fmap_ext.
  - exact Hclear.
  - intros Heq d Hd. apply Hclear.
    apply (f_equal domainsOf) in Heq. rewrite domainsOf_set_Domains in Heq.
    by rewrite Heq.
  - intros Hall. rewrite clear_noop by done. apply set_Domains_id.
Qed.

Lemma set_default_missing_clears_flags_witness :
  ¬ hasDomain "b.com" (domainsOf singleDefaultSpace)
  ∧ (setDefaultDomain "b.com" singleDefaultSpace).1
    = Some "failed to find domain b.com".
Proof.
  assert (Hmiss : ¬ hasDomain "b.com" (domainsOf singleDefaultSpace)).
  { intros [H | H%hasDomain_nil]%hasDomain_cons; done. }
  split; [exact Hmiss |].
  apply (set_default_missing_clears_flags _ _ Hmiss).
Defined.

(** ** remove-domain *)

(** C3: remove-domain is set difference keyed by the domain name.  It never
    returns an error, keeps (in order) exactly the entries whose name
    differs from the argument, changes nothing outside the domain list, and
    leaves the space exactly as it was when no entry carries the name. *)
Theorem remove_domain_set_difference (space : Space) (domain : string) :
  let r := removeDomain domain space in
  r.1 = None
  ∧ r.2 = set_Domains (filter (λ d, Domain d ≠ domain) (domainsOf space)) space
  ∧ (∀ d, d ∈ domainsOf r.2 ↔ d ∈ domainsOf space ∧ Domain d ≠ domain)
  ∧ ¬ hasDomain domain (domainsOf r.2)
  ∧ (¬ hasDomain domain (domainsOf space) → r = (None, space)).
Proof.
  intros r. subst r. unfold removeDomain. cbn [fst snd].
  rewrite Delete_single, domainsOf_set_Domains.
  split; [done |]. split; [done |]. split; [| split].
  - intros d. rewrite list_elem_of_filter. tauto.
  - intros (d & [Hne _]%list_elem_of_filter & Hd)%hasDomain_elem_of. done.
  - intros Hmiss. f_equal. rewrite filter_all; [apply set_Domains_id |].
    intros d Hd Hn. apply Hmiss, hasDomain_elem_of. eauto.
Qed.

Lemma remove_domain_set_difference_witness :
  ¬ hasDomain "c.com" (domainsOf twoDomainSpace)
  ∧ removeDomain "c.com" twoDomainSpace = (None, twoDomainSpace).
Proof.
  assert (Hmiss : ¬ hasDomain "c.com" (domainsOf twoDomainSpace)).
  { intros [H | [H | H%hasDomain_nil]%hasDomain_cons]%hasDomain_cons; done. }
  split; [exact Hmiss |].
  apply (remove_domain_set_difference _ "c.com"). exact Hmiss.
Defined.

(** ** append-domain *)

(** C4: append-domain succeeds and puts one new entry carrying the given
    name at the end of the domain list, whatever the list already holds:
    the old list is a prefix of the new one, the length grows by one, and
    the number of entries with that name grows by one (no deduplication). *)
Theorem append_domain_adds_one_entry (space : Space) (domain : string) :
  let r := appendDomain domain space in
  r.1 = None
  ∧ (∃ entry, Domain entry = domain ∧ domainsOf r.2 = domainsOf space ++ [entry])
  ∧ last (domainsOf r.2) = Some (mkSpaceDomain domain false)
  ∧ length (domainsOf r.2) = S (length (domainsOf space))
  ∧ countNamed domain (domainsOf r.2) = S (countNamed domain (domainsOf space))
  ∧ r.2 = set_Domains (domainsOf r.2) space.
Proof.
  intros r. subst r. unfold appendDomain. cbn [fst snd].
  rewrite domainsOf_set_Domains. repeat split.
  - by exists (mkSpaceDomain domain false).
  - apply last_snoc.
  - rewrite length_app. simpl. lia.
  - unfold countNamed. rewrite filter_app, length_app.
    rewrite filter_cons_True by done. simpl. lia.
Qed.

(** C10: the entry append-domain adds is not flagged default and every
    entry already present stays at its index with its name and flag, so the
    entries flagged default are the same before and after. *)
Theorem append_domain_keeps_defaults (space : Space) (domain : string) :
  let r := appendDomain domain space in
  domainsOf r.2 !! length (domainsOf space) = Some (mkSpaceDomain domain false)
  ∧ (∀ i d, domainsOf space !! i = Some d → domainsOf r.2 !! i = Some d)
  ∧ filter (λ d, Default d = true) (domainsOf r.2)
    = filter (λ d, Default d = true) (domainsOf space)
  ∧ countDefault (domainsOf r.2) = countDefault (domainsOf space).
Proof.
  intros r. subst r. unfold appendDomain. cbn [fst snd].
  rewrite domainsOf_set_Domains.
  assert (Hfilter : filter (λ d, Default d = true)
                      (domainsOf space ++ [mkSpaceDomain domain false])
                    = filter (λ d, Default d = true) (domainsOf space)).
  { rewrite filter_app, filter_cons_False by done. apply app_nil_r. }
  repeat split.
  - by apply list_lookup_middle.
  - intros i d Hd. by apply lookup_app_l_Some.
  - exact Hfilter.
  - unfold countDefault. by rewrite Hfilter.
Qed.

(** ** Idempotence of the domain mutators *)

(** C9: applying remove-domain twice with the same name gives the same
    result as applying it once, and so does set-default-domain with a name
    that is present (both applications succeed). *)
Theorem domain_mutators_idempotent (space : Space) (domain : string) :
  removeDomain domain (removeDomain domain space).2 = removeDomain domain space
  ∧ (hasDomain domain (domainsOf space) →
     (setDefaultDomain domain space).1 = None
     ∧ setDefaultDomain domain (setDefaultDomain domain space).2
       = setDefaultDomain domain space).
Proof.
  split.
  - unfold removeDomain. cbn [fst snd].
    rewrite domainsOf_set_Domains, set_Domains_twice, !Delete_single.
    by rewrite list_filter_filter_l.
  - intros Hhas. rewrite (setDefaultDomain_found domain space) by done.
    cbn [fst snd]. split; [done |].
    rewrite setDefaultDomain_found
      by (rewrite domainsOf_set_Domains; by apply hasDomain_mark).
    rewrite domainsOf_set_Domains, set_Domains_twice.
    rewrite <- list_fmap_compose. done.
Qed.

Lemma domain_mutators_idempotent_witness :
  hasDomain "b.com" (domainsOf twoDomainSpace)
  ∧ setDefaultDomain "b.com" (setDefaultDomain "b.com" twoDomainSpace).2
    = setDefaultDomain "b.com" twoDomainSpace.
Proof.
  assert (Hhas : hasDomain "b.com" (domainsOf twoDomainSpace)).
  { apply hasDomain_cons. right. apply hasDomain_cons. by left. }
  split; [exact Hhas |].
  apply (domain_mutators_idempotent _ "b.com"). exact Hhas.
Defined.

(** ** Environment variables *)

Lemma remove_then_append name value (env : list EnvVar) :
  replacedOrInserted name value env
    (envutil.RemoveEnvVars [name] env ++ [mkEnvVar name value None]).
Proof.
  unfold replacedOrInserted. rewrite RemoveEnvVars_single. repeat split.
  - rewrite filter_app, filter_cons_True by done.
    rewrite filter_none; [done |].
    intros e [Hne _]%list_elem_of_filter. done.
  - rewrite filter_app, filter_cons_False by (simpl; tauto).
    rewrite app_nil_r. by rewrite list_filter_filter_l.
  - apply last_snoc.
Qed.

Lemma remove_absent name (env : list EnvVar) :
  (∀ e, e ∈ env → Name e ≠ name) → envutil.RemoveEnvVars [name] env = env.
Proof. intros Habs. rewrite RemoveEnvVars_single. by apply filter_all. Qed.

(** C5: set-env and set-buildpack-env succeed and replace-or-insert the
    variable in their list (every variable of that name removed, the new one
    appended last, the others unchanged in order, exactly one variable of
    that name left), touching nothing else in the space; unset-env and
    unset-buildpack-env with a name that does not occur return the space as
    it was. *)
Theorem env_set_replaces_unset_absent_noop (space : Space) (name value : string) :
  ((setEnv name value space).1 = None
   ∧ replacedOrInserted name value (envOf space) (envOf (setEnv name value space).2)
   ∧ (setEnv name value space).2
     = set_Env (envOf (setEnv name value space).2) space)
  ∧ ((∀ e, e ∈ envOf space → Name e ≠ name) → unsetEnv name space = (None, space))
  ∧ ((setBuildpackEnv name value space).1 = None
     ∧ replacedOrInserted name value (buildEnvOf space)
         (buildEnvOf (setBuildpackEnv name value space).2)
     ∧ (setBuildpackEnv name value space).2
       = set_BuildEnv (buildEnvOf (setBuildpackEnv name value space).2) space)
  ∧ ((∀ e, e ∈ buildEnvOf space → Name e ≠ name) →
     unsetBuildpackEnv name space = (None, space)).
Proof.
  split; [| split; [| split]].
  - unfold setEnv. cbn [fst snd].
    split; [done | split; [apply remove_then_append | done]].
  - intros Habs. unfold unsetEnv. rewrite remove_absent by done.
    by rewrite set_Env_id.
  - unfold setBuildpackEnv. cbn [fst snd].
    split; [done | split; [apply remove_then_append | done]].
  - intros Habs. unfold unsetBuildpackEnv. rewrite remove_absent by done.
    by rewrite set_BuildEnv_id.
Qed.

Lemma env_set_replaces_unset_absent_noop_witness :
  (∀ e, e ∈ envOf twoVarSpace → Name e ≠ "C")
  ∧ (∀ e, e ∈ buildEnvOf twoVarSpace → Name e ≠ "C")
  ∧ unsetEnv "C" twoVarSpace = (None, twoVarSpace)
  ∧ unsetBuildpackEnv "C" twoVarSpace = (None, twoVarSpace).
Proof.
  assert (Habs : ∀ e, e ∈ [mkEnvVar "A" "1" None; mkEnvVar "B" "2" None] → Name e ≠ "C").
  { intros e He. repeat (apply elem_of_cons in He as [-> | He]; [done |]).
    by apply elem_of_nil in He. }
  split; [exact Habs |]. split; [exact Habs |].
  pose proof (env_set_replaces_unset_absent_noop twoVarSpace "C" "") as (_ & Hu & _ & Hb).
  split; [apply Hu, Habs | apply Hb, Habs].
Defined.


(** * Properties of the proxy command *)

Import routes.

(** ** Gateway resolution *)

(** C6: resolution over the candidate list is a function of the list alone.
    The empty list gives the error "no gateway found", a single candidate
    is returned as it is, and two or more candidates give the error
    "ambiguous gateway, specify explicitly". *)
Theorem gateway_resolution_cases :
  istio.ExtractIngressFromList [] = inr "no gateway found"
  ∧ (∀ gw, istio.ExtractIngressFromList [gw] = inl gw)
  ∧ (∀ candidates, 2 ≤ length candidates →
       istio.ExtractIngressFromList candidates
       = inr "ambiguous gateway, specify explicitly").
Proof.
  split; [done |]. split; [done |].
  intros [| a [| b rest]] Hlen; simpl in Hlen; [lia | lia | done].
Qed.

Lemma gateway_resolution_cases_witness :
  2 ≤ length ["a"; "b"]
  ∧ istio.ExtractIngressFromList ["a"; "b"]
    = inr "ambiguous gateway, specify explicitly".
Proof.
  split; [simpl; lia |].
  apply gateway_resolution_cases. simpl. lia.
Defined.

(** ** The director *)

(** C7: whatever the inbound request, the director sets its host field to
    the route host, its URL scheme to "http" and its URL host to the
    gateway, and leaves the method, the path, the query, the headers and
    the body as they were. *)
Theorem director_rewrites_host_scheme_target (routeHost gw : string) (req : Request) :
  let req' := (Director (createProxy routeHost gw) req).1 in
  Host req' = routeHost
  ∧ Scheme (ReqURL req') = "http"
  ∧ UHost (ReqURL req') = gw
  ∧ Method req' = Method req
  ∧ Path (ReqURL req') = Path (ReqURL req)
  ∧ RawQuery (ReqURL req') = RawQuery (ReqURL req)
  ∧ Header req' = Header req
  ∧ Body req' = Body req.
Proof. by repeat split. Qed.

(** ** Dry run *)






(** * Further properties of the space mutators *)

(** ** set-default-domain on any input *)

(** Whatever the name, set-default-domain reports an error exactly when no
    entry carries it (and then the message names the domain), changes
    nothing but the flags of the domain list, keeps names, order and length,
    and leaves a list in which every entry flagged default carries the
    requested name: two default entries never differ in name. *)
Theorem set_default_outcome_and_invariant (space : Space) (domain : string) :
  let r := setDefaultDomain domain space in
  (r.1 = None ↔ hasDomain domain (domainsOf space))
  ∧ (r.1 = Some ("failed to find domain " +:+ domain)
     ↔ ¬ hasDomain domain (domainsOf space))
  ∧ r.2 = set_Domains (domainsOf r.2) space
  ∧ Domain <$> domainsOf r.2 = Domain <$> domainsOf space
  ∧ countDefault (domainsOf r.2) = countNamed domain (domainsOf space)
  ∧ (∀ d1 d2, d1 ∈ domainsOf r.2 → d2 ∈ domainsOf r.2 →
       Default d1 = true → Default d2 = true → Domain d1 = Domain d2).
Proof.
  intros r. subst r.
  assert (Hsnd : (setDefaultDomain domain space).2
                 = set_Domains (markDefault domain <$> domainsOf space) space).
  { destruct (decide (hasDomain domain (domainsOf space))) as [Hh | Hh].
    - by rewrite setDefaultDomain_found.
    - by rewrite setDefaultDomain_missing. }
  rewrite Hsnd, domainsOf_set_Domains.
  split; [| split; [| split; [| split; [| split]]]].
  - destruct (decide (hasDomain domain (domainsOf space))) as [Hh | Hh].
    + by rewrite setDefaultDomain_found.
    + rewrite setDefaultDomain_missing by done. cbn [fst]. split; [done | tauto].
  - destruct (decide (hasDomain domain (domainsOf space))) as [Hh | Hh].
    + rewrite setDefaultDomain_found by done. cbn [fst]. split; [done | tauto].
    + by rewrite setDefaultDomain_missing.
  - done.
  - rewrite <- list_fmap_compose. by apply list_fmap_ext.
  - apply countDefault_mark.
  - intros d1 d2 (x1 & -> & _)%list_elem_of_fmap (x2 & -> & _)%list_elem_of_fmap.
    intros H1%markDefault_Default H2%markDefault_Default.
    rewrite !markDefault_Domain. congruence.
Qed.

(** ** The last set-default-domain wins *)

(** Running set-default-domain for [b] on what set-default-domain for [a]
    left behind gives the error and the space that set-default-domain for
    [b] gives on the original space: an earlier choice of default, whether
    it succeeded or not, leaves no trace. *)
Theorem set_default_last_wins (space : Space) (a b : string) :
  setDefaultDomain b (setDefaultDomain a space).2 = setDefaultDomain b space.
Proof.
  assert (Hsnd : (setDefaultDomain a space).2
                 = set_Domains (markDefault a <$> domainsOf space) space).
  { destruct (decide (hasDomain a (domainsOf space))) as [Hh | Hh].
    - by rewrite setDefaultDomain_found.
    - by rewrite setDefaultDomain_missing. }
  rewrite Hsnd.
  destruct (decide (hasDomain b (domainsOf space))) as [Hh | Hh].
  - rewrite (setDefaultDomain_found b space) by done.
    rewrite setDefaultDomain_found
      by (rewrite domainsOf_set_Domains; by apply hasDomain_mark).
    rewrite domainsOf_set_Domains, set_Domains_twice.
    by rewrite <- list_fmap_compose.
  - rewrite (setDefaultDomain_missing b space) by done.
    rewrite setDefaultDomain_missing
      by (rewrite domainsOf_set_Domains; by rewrite hasDomain_mark).
    rewrite domainsOf_set_Domains, set_Domains_twice.
    by rewrite <- list_fmap_compose.
Qed.

(** ** append-domain followed by set-default-domain *)

(** set-default-domain for a name that append-domain has just added always
    succeeds.  When the name was not in the list before, the appended entry
    ends up as the one and only default: the old entries keep their place
    with the flag cleared and the new entry is last with the flag set. *)
Theorem append_then_set_default (space : Space) (domain : string) :
  let r := setDefaultDomain domain (appendDomain domain space).2 in
  r.1 = None
  ∧ (¬ hasDomain domain (domainsOf space) →
     domainsOf r.2
     = (set_Default false <$> domainsOf space) ++ [mkSpaceDomain domain true]
     ∧ countDefault (domainsOf r.2) = 1).
Proof.
  intros r. subst r. unfold appendDomain. cbn [snd].
  assert (Hhas : hasDomain domain
            (domainsOf (set_Domains (domainsOf space ++ [mkSpaceDomain domain false]) space))).
  { rewrite domainsOf_set_Domains. apply hasDomain_elem_of.
    exists (mkSpaceDomain domain false). split; [| done].
    apply elem_of_app. right. by apply list_elem_of_singleton. }
  rewrite setDefaultDomain_found by done. cbn [fst snd].
  split; [done |]. intros Hfresh.
  rewrite !domainsOf_set_Domains.
  assert (Hds : markDefault domain <$> (domainsOf space ++ [mkSpaceDomain domain false])
                = (set_Default false <$> domainsOf space) ++ [mkSpaceDomain domain true]).
  { rewrite fmap_app, mark_missing by done. f_equal.
    cbn. unfold markDefault. cbn. by rewrite bool_decide_eq_true_2. }
  split; [exact Hds |].
  rewrite countDefault_mark. unfold countNamed.
  rewrite filter_app, filter_cons_True by done.
  rewrite filter_none.
  - done.
  - intros d Hd Hn. apply Hfresh, hasDomain_elem_of. eauto.
Qed.

Lemma append_then_set_default_witness :
  ¬ hasDomain "c.com" (domainsOf twoDomainSpace)
  ∧ domainsOf (setDefaultDomain "c.com" (appendDomain "c.com" twoDomainSpace).2).2
    = [mkSpaceDomain "a.com" false; mkSpaceDomain "b.com" false;
       mkSpaceDomain "c.com" true].
Proof.
  assert (Hfresh : ¬ hasDomain "c.com" (domainsOf twoDomainSpace)).
  { intros [H | [H | H%hasDomain_nil]%hasDomain_cons]%hasDomain_cons; done. }
  split; [exact Hfresh |].
  apply (append_then_set_default twoDomainSpace "c.com"). exact Hfresh.
Defined.

(** ** set-container-registry and set-buildpack-builder *)

(** Both mutators always succeed and write exactly their own field: the
    matching accessor then returns the value given, a second call replaces
    the first, the two mutators commute, and neither changes what any other
    accessor returns. *)
Theorem registry_and_builder_setters (space : Space) (r1 r2 i1 : string) :
  (setContainerRegistry r1 space).1 = None
  ∧ (setBuildpackBuilder i1 space).1 = None
  ∧ spaces_cmd.Accessor spaces_cmd.newGetContainerRegistryAccessor
      (setContainerRegistry r1 space).2 = spaces_cmd.VString r1
  ∧ spaces_cmd.Accessor spaces_cmd.newGetBuildpackBuilderAccessor
      (setBuildpackBuilder i1 space).2 = spaces_cmd.VString i1
  ∧ (setContainerRegistry r2 (setContainerRegistry r1 space).2).2
    = (setContainerRegistry r2 space).2
  ∧ (setBuildpackBuilder i1 (setContainerRegistry r1 space).2).2
    = (setContainerRegistry r1 (setBuildpackBuilder i1 space).2).2
  ∧ (∀ sa, sa ∈ spaces_cmd.accessors →
       spaces_cmd.AName sa ≠ "get-container-registry" →
       spaces_cmd.Accessor sa (setContainerRegistry r1 space).2
       = spaces_cmd.Accessor sa space)
  ∧ (∀ sa, sa ∈ spaces_cmd.accessors →
       spaces_cmd.AName sa ≠ "get-buildpack-builder" →
       spaces_cmd.Accessor sa (setBuildpackBuilder i1 space).2
       = spaces_cmd.Accessor sa space).
Proof.
  repeat split; intros sa Hsa Hname;
    repeat (apply elem_of_cons in Hsa as [-> | Hsa]; [done |]);
    by apply elem_of_nil in Hsa.
Qed.

Lemma registry_and_builder_setters_witness :
  spaces_cmd.newGetDomainsAccessor ∈ spaces_cmd.accessors
  ∧ spaces_cmd.Accessor spaces_cmd.newGetDomainsAccessor
      (setContainerRegistry "gcr.io/other" twoDomainSpace).2
    = spaces_cmd.Accessor spaces_cmd.newGetDomainsAccessor twoDomainSpace.
Proof.
  assert (Hin : spaces_cmd.newGetDomainsAccessor ∈ spaces_cmd.accessors).
  { unfold spaces_cmd.accessors.
    repeat first [apply list_elem_of_here | apply list_elem_of_further]. }
  split; [exact Hin |].
  apply (registry_and_builder_setters twoDomainSpace "gcr.io/other" "" "");
    [exact Hin | done].
Defined.

(** ** Domain mutators and the other accessors *)

(** append-domain and set-default-domain (whether it succeeds or not) change
    what get-domains returns and nothing else: every other accessor of the
    table returns the same value before and after. *)
Theorem domain_mutators_frame (space : Space) (domain : string)
    (sa : spaces_cmd.spaceAccessor) :
  sa ∈ spaces_cmd.accessors →
  spaces_cmd.AName sa ≠ "get-domains" →
  spaces_cmd.Accessor sa (appendDomain domain space).2 = spaces_cmd.Accessor sa space
  ∧ spaces_cmd.Accessor sa (setDefaultDomain domain space).2
    = spaces_cmd.Accessor sa space.
Proof.
  intros Hsa Hname.
  assert (Hsnd : (setDefaultDomain domain space).2
                 = set_Domains (markDefault domain <$> domainsOf space) space).
  { destruct (decide (hasDomain domain (domainsOf space))) as [Hh | Hh].
    - by rewrite setDefaultDomain_found.
    - by rewrite setDefaultDomain_missing. }
  rewrite Hsnd. unfold appendDomain. cbn [snd].
  repeat (apply elem_of_cons in Hsa as [-> | Hsa]; [done |]).
  by apply elem_of_nil in Hsa.
Qed.

Lemma domain_mutators_frame_witness :
  spaces_cmd.newGetExecutionEnvAccessor ∈ spaces_cmd.accessors
  ∧ spaces_cmd.Accessor spaces_cmd.newGetExecutionEnvAccessor
      (setDefaultDomain "b.com" twoVarSpace).2
    = spaces_cmd.Accessor spaces_cmd.newGetExecutionEnvAccessor twoVarSpace.
Proof.
  assert (Hin : spaces_cmd.newGetExecutionEnvAccessor ∈ spaces_cmd.accessors).
  { unfold spaces_cmd.accessors.
    repeat first [apply list_elem_of_here | apply list_elem_of_further]. }
  split; [exact Hin |].
  apply (domain_mutators_frame twoVarSpace "b.com" _ Hin). done.
Defined.


(** * The commands of the two tables *)

Module spaces_cmd_facts.
Import spaces_cmd.

(** ** Arity of the mutator table *)

(** Every entry of the mutator table indexes exactly the arguments it
    declares: given one argument per declared name (or more) its [Init]
    returns a mutator and a nil error, given fewer it panics. *)
Lemma Init_arity (sm : spaceMutator) (args : list string) :
  sm ∈ subcommands →
  (length (Args sm) ≤ length args → ∃ m, Init sm args = InitOk m None)
  ∧ (length args < length (Args sm) → Init sm args = InitPanic).
Proof.
  intros Hsm. unfold subcommands in Hsm.
  repeat (apply elem_of_cons in Hsm as [-> | Hsm];
    [destruct args as [| a [| b rest]]; cbn; split; intros Hlen;
       solve [lia | eauto] |]).
  by apply elem_of_nil in Hsm.
Qed.

(** A mutator command built from the table panics exactly when it is run
    with fewer arguments than [cobra.ExactArgs] asks for, and then before
    anything else happens.  With enough arguments it silences the usage
    text, calls [Transform] once, for the space named by the first argument
    and with the diff-printing wrapper of the mutator built from the
    remaining arguments, and returns the error [Transform] returns. *)
Theorem mutator_command_arity (fm : Formatting) (client : Client)
    (sm : spaceMutator) (args : list string) :
  sm ∈ subcommands →
  (length args < commandArity sm → mutatorRunE fm sm client args = ([], routes.Panic))
  ∧ (commandArity sm ≤ length args →
     ∃ spaceName m,
       args !! 0 = Some spaceName
       ∧ Init sm (drop 1 args) = InitOk m None
       ∧ mutatorRunE fm sm client args
         = ([SilenceUsage; CallTransform spaceName (DiffWrapper fm m)],
            routes.Return (ClientTransform client spaceName (DiffWrapper fm m)).2)
       ∧ transformed (mutatorRunE fm sm client args).1 = [spaceName]).
Proof.
  intros Hsm. unfold commandArity, mutatorRunE.
  destruct (Init_arity sm (drop 1 args) Hsm) as [Hok Hpanic].
  rewrite length_drop in Hok, Hpanic.
  split.
  - intros Hlen. destruct args as [| spaceName rest]; [done |].
    cbn [lookup list_lookup]. cbn in Hlen.
    rewrite Hpanic; [done |]. cbn. lia.
  - intros Hlen. destruct args as [| spaceName rest]; [cbn in Hlen; lia |].
    cbn in Hlen. destruct Hok as [m Hm]; [cbn; lia |].
    exists spaceName, m. cbn [lookup list_lookup]. rewrite Hm. done.
Qed.

Lemma mutator_command_arity_witness :
  newSetDefaultDomainMutator ∈ subcommands
  ∧ commandArity newSetDefaultDomainMutator ≤ length ["my-space"; "b.com"]
  ∧ (mutatorRunE plainFormatting newSetDefaultDomainMutator fixedClient
       ["my-space"; "b.com"]).2 = routes.Return None
  ∧ (mutatorRunE plainFormatting newSetDefaultDomainMutator fixedClient
       ["my-space"]) = ([], routes.Panic).
Proof.
  assert (Hin : newSetDefaultDomainMutator ∈ subcommands).
  { unfold subcommands.
    repeat first [apply list_elem_of_here | apply list_elem_of_further]. }
  split; [exact Hin |]. split; [cbn; lia |].
  split; [by vm_compute |].
  apply (mutator_command_arity plainFormatting fixedClient _ ["my-space"] Hin).
  cbn. lia.
Defined.

(** ** Accessor commands *)

(** An accessor command only reads: it never calls [Transform].  Run with a
    space name it calls [Get] for that name; when [Get] fails it returns
    that error and prints nothing; when the value marshals it prints exactly
    the marshalled projection and returns nil; when marshalling fails it
    prints the value in Go syntax and returns an error that wraps the
    marshaller's. *)
Theorem accessor_command_reads_only (fm : Formatting) (client : Client)
    (sa : spaceAccessor) (args : list string) :
  let r := accessorRunE fm sa client args in
  transformed r.1 = []
  ∧ (∀ spaceName, args !! 0 = Some spaceName →
      (∀ err, ClientGet client spaceName = inr err →
         r = ([SilenceUsage; CallGet spaceName], routes.Return (Some err)))
      ∧ (∀ space, ClientGet client spaceName = inl space →
         (∀ m, Marshal fm (Accessor sa space) = inl m →
            r = ([SilenceUsage; CallGet spaceName; Fprint m], routes.Return None))
         ∧ (∀ err, Marshal fm (Accessor sa space) = inr err →
            r = ([SilenceUsage; CallGet spaceName;
                  Fprint (GoSyntax fm (Accessor sa space))],
                 routes.Return (Some ("couldn't convert value to YAML: " +:+ err))))))
  ∧ (r.2 = routes.Return None ↔
     ∃ spaceName space m,
       args !! 0 = Some spaceName
       ∧ ClientGet client spaceName = inl space
       ∧ Marshal fm (Accessor sa space) = inl m).
Proof.
  intros r. subst r. unfold accessorRunE.
  destruct (args !! 0) as [spaceName |] eqn:Hargs.
  - destruct (ClientGet client spaceName) as [space | gerr] eqn:Hget.
    + destruct (Marshal fm (Accessor sa space)) as [m | merr] eqn:Hm.
      * split; [done |]. split.
        -- intros ? [= <-]. rewrite Hget. split; [done |].
           intros ? [= <-]. rewrite Hm. split; by intros ? [= <-].
        -- split; [| done]. intros _. exists spaceName, space, m. done.
      * split; [done |]. split.
        -- intros ? [= <-]. rewrite Hget. split; [done |].
           intros ? [= <-]. rewrite Hm. split; by intros ? [= <-].
        -- split; [done |].
           intros (n & s & m & [= <-] & Hg & Hm'). congruence.
    + split; [done |]. split.
      * intros ? [= <-]. rewrite Hget. split; [by intros ? [= <-] | done].
      * split; [done |]. intros (n & s & m & [= <-] & Hg & _). congruence.
  - split; [done |]. split; [done |].
    split; [done |]. intros (n & s & m & Hn & _). done.
Qed.

Lemma accessor_command_reads_only_witness :
  ["my-space"] !! 0 = Some "my-space"
  ∧ ClientGet fixedClient "my-space" = inl twoDomainSpace
  ∧ accessorRunE plainFormatting newGetContainerRegistryAccessor fixedClient ["my-space"]
    = ([SilenceUsage; CallGet "my-space"; Fprint ("gcr.io/my-project" +:+ nl)],
       routes.Return None).
Proof.
  split; [reflexivity |]. split; [reflexivity |].
  pose proof (accessor_command_reads_only plainFormatting fixedClient
                newGetContainerRegistryAccessor ["my-space"]) as (_ & Hrun & _).
  destruct (Hrun "my-space" eq_refl) as [_ Hget].
  destruct (Hget twoDomainSpace eq_refl) as [Hok _].
  apply Hok. reflexivity.
Defined.

End spaces_cmd_facts.


(** * Further properties of the proxy command *)

Module routes_facts.

(** Case analysis over everything [RunE] consults. *)
Ltac run_cases w f args :=
  unfold RunE, resolveGateway, failOn, index, orReturn;
  destruct (validateNamespace w) as [nserr |] eqn:Hns;
  destruct (args !! 0) as [host0 |] eqn:Hargs;
  destruct (decide (gateway f = "")) as [Hauto | Hflag];
  destruct (istio.ExtractIngressFromList (listIngresses w)) as [gw0 | gerr] eqn:Hgw;
  destruct (netListen w "tcp" (listenAddress (port f))) as [l0 | lerr] eqn:Hlisten;
  destruct (noStart f) eqn:Hdry;
  cbn.

(** ** When the proxy starts *)

(** [http.Serve] is called at most once, and it is called exactly when the
    no-start flag is off, the namespace is valid, a route argument is
    present, the gateway is resolved and the local port is bound; the proxy
    it serves is the one for the route given as first argument and the
    resolved gateway, on the listener [net.Listen] returned. *)
Theorem proxy_serves_iff (w : World) (f : Flags) (args : list string) :
  length (served (outcome (RunE w f args)).1) ≤ 1
  ∧ ∀ l h g,
      (l, h, g) ∈ served (outcome (RunE w f args)).1
      ↔ noStart f = false
        ∧ validateNamespace w = None
        ∧ args !! 0 = Some h
        ∧ (resolveGateway w f).2 = inl g
        ∧ netListen w "tcp" (listenAddress (port f)) = inl l.
Proof.
  split.
  - run_cases w f args; lia.
  - intros l h g.
    run_cases w f args;
      rewrite ?elem_of_nil, ?list_elem_of_singleton;
      (split; [intros Hin | intros (H1 & H2 & H3 & H4 & H5)]);
      solve [done | congruence | by simplify_eq].
Qed.


(** ** What the command binds *)


Lemma proxy_serves_iff_witness :
  (mkListener "127.0.0.1:8080", "myhost.example.com", "10.0.0.5:80")
  ∈ served (outcome (RunE singleIngressWorld serveFlags ["myhost.example.com"])).1.
Proof.
  apply (proxy_serves_iff singleIngressWorld serveFlags ["myhost.example.com"]).
  repeat split; reflexivity.
Defined.


(** ** How the command ends *)

(** The command panics exactly when it is run without a route argument in a
    valid namespace, and then before any effect.  A failed namespace check
    is returned as it is, with no effect at all.  The command returns nil
    only in a dry run that got as far as a bound port: a run that serves
    always ends with the error [http.Serve] returns. *)
Theorem proxy_exit_status (w : World) (f : Flags) (args : list string) :
  let r := outcome (RunE w f args) in
  (r.2 = Panic ↔ validateNamespace w = None ∧ args !! 0 = None)
  ∧ (r.2 = Panic → r.1 = [])
  ∧ (∀ err, validateNamespace w = Some err → r = ([], Return (Some err)))
  ∧ (r.2 = Return None ↔
       noStart f = true
       ∧ validateNamespace w = None
       ∧ is_Some (args !! 0)
       ∧ (∃ g, (resolveGateway w f).2 = inl g)
       ∧ ∃ l, netListen w "tcp" (listenAddress (port f)) = inl l)
  ∧ (∀ l h g, (l, h, g) ∈ served r.1 → r.2 = Return (Some (httpServe w l))).
Proof.
  intros r. subst r.
  split; [| split; [| split; [| split]]].
  - run_cases w f args; split;
      solve [done | intros [? ?]; done].
  - run_cases w f args; done.
  - intros err. run_cases w f args; intros Herr; by simplify_eq.
  - run_cases w f args; split;
      solve [ done | intros _; eauto 8
            | intros (? & ? & [? ?] & [? ?] & [? ?]); done ].
  - intros l h g. run_cases w f args;
      rewrite ?elem_of_nil, ?list_elem_of_singleton;
      intros Hin; solve [done | by simplify_eq].
Qed.

Lemma proxy_exit_status_witness :
  validateNamespace (mkWorld (Some "namespace not set") [] (λ _ a, inl (mkListener a))
                       (λ _, "closed")) = Some "namespace not set"
  ∧ outcome (RunE (mkWorld (Some "namespace not set") [] (λ _ a, inl (mkListener a))
                     (λ _, "closed")) dryRunFlags ["myhost.example.com"])
    = ([], Return (Some "namespace not set")).
Proof.
  split; [reflexivity |].
  apply (proxy_exit_status (mkWorld (Some "namespace not set") []
                              (λ _ a, inl (mkListener a)) (λ _, "closed"))
           dryRunFlags ["myhost.example.com"]).
  reflexivity.
Defined.

(** ** The gateway flag *)

(** With a gateway given on the command line the ingress lister plays no
    part: the command behaves the same whatever the lister would answer,
    never prints the autodetection notice, and any proxy it starts targets
    the flag's value.  With no gateway given, a run in a valid namespace
    with a route argument prints the autodetection notice first. *)
Theorem gateway_flag_decides_autodetection (w : World) (f : Flags) (args : list string) :
  (gateway f ≠ "" →
     (∀ ingresses, RunE (withIngresses w ingresses) f args = RunE w f args)
     ∧ (autodetectMessage ∉ printed (outcome (RunE w f args)).1)
     ∧ (∀ l h g, (l, h, g) ∈ served (outcome (RunE w f args)).1 → g = gateway f))
  ∧ (gateway f = "" → validateNamespace w = None → is_Some (args !! 0) →
     head (printed (outcome (RunE w f args)).1) = Some autodetectMessage).
Proof.
  split.
  - intros Hset. split; [| split].
    + intros ingresses. unfold RunE, resolveGateway.
      destruct (decide (gateway f = "")); [done | reflexivity].
    + run_cases w f args; try done;
        intros Hin;
        repeat (apply elem_of_cons in Hin as [Heq | Hin];
                [cbv in Heq; discriminate Heq |]);
        by apply elem_of_nil in Hin.
    + intros l h g. run_cases w f args; try done;
        rewrite ?elem_of_nil, ?list_elem_of_singleton;
        intros Hin; solve [done | by simplify_eq].
  - intros Hunset Hns [h Hh]. revert Hns Hh.
    run_cases w f args; done.
Qed.

Lemma gateway_flag_decides_autodetection_witness :
  gateway (mkFlags "10.0.0.9:80" 8080 true) ≠ ""
  ∧ RunE (withIngresses singleIngressWorld []) (mkFlags "10.0.0.9:80" 8080 true)
      ["myhost.example.com"]
    = RunE singleIngressWorld (mkFlags "10.0.0.9:80" 8080 true) ["myhost.example.com"].
Proof.
  assert (Hset : gateway (mkFlags "10.0.0.9:80" 8080 true) ≠ "") by done.
  split; [exact Hset |].
  apply (gateway_flag_decides_autodetection singleIngressWorld
           (mkFlags "10.0.0.9:80" 8080 true) ["myhost.example.com"]).
  exact Hset.
Defined.

(** ** The director and what the request carried before *)

(** The outgoing request and the logged line do not depend on the host
    field, the URL scheme or the URL host the request came in with: two
    requests that agree on everything else leave the director identical.  In
    particular a request already rewritten by one proxy is treated by a
    second proxy as the original would be, and rewriting twice with the same
    proxy is the same as rewriting once. *)
Theorem director_ignores_incoming_target (h1 g1 h2 g2 : string) (req req' : Request) :
  (Method req' = Method req →
   Header req' = Header req →
   Body req' = Body req →
   Opaque (ReqURL req') = Opaque (ReqURL req) →
   Path (ReqURL req') = Path (ReqURL req) →
   ForceQuery (ReqURL req') = ForceQuery (ReqURL req) →
   RawQuery (ReqURL req') = RawQuery (ReqURL req) →
   Director (createProxy h2 g2) req' = Director (createProxy h2 g2) req)
  ∧ Director (createProxy h2 g2) (Director (createProxy h1 g1) req).1
    = Director (createProxy h2 g2) req
  ∧ Director (createProxy h2 g2) (Director (createProxy h2 g2) req).1
    = Director (createProxy h2 g2) req.
Proof.
  split; [| by split].
  destruct req as [m [s o uh p fq rq] hd b h].
  destruct req' as [m' [s' o' uh' p' fq' rq'] hd' b' h'].
  cbn. by intros -> -> -> -> -> -> ->.
Qed.

Lemma director_ignores_incoming_target_witness :
  Director (createProxy "myhost.example.com" "10.0.0.5:80")
    (mkRequest "GET" (mkURL "https" "" "evil.example.org" "/x" false "a=1") [] ""
       "evil.example.org")
  = Director (createProxy "myhost.example.com" "10.0.0.5:80")
      (mkRequest "GET" (mkURL "" "" "" "/x" false "a=1") [] "" "localhost:8080").
Proof.
  apply (director_ignores_incoming_target "" "" "myhost.example.com" "10.0.0.5:80");
    reflexivity.
Defined.

End routes_facts.


(** * append-domain and set-default-domain for different names *)

(** Appending a domain and choosing another name as default can be done in
    either order: the error of set-default-domain and the resulting space
    are the same. *)
Theorem append_set_default_commute (space : Space) (a b : string) :
  a ≠ b →
  setDefaultDomain a (appendDomain b space).2
  = ((setDefaultDomain a space).1, (appendDomain b (setDefaultDomain a space).2).2).
Proof.
  intros Hne. unfold appendDomain. cbn [snd].
  assert (Hmark : markDefault a <$> (domainsOf space ++ [mkSpaceDomain b false])
                  = (markDefault a <$> domainsOf space) ++ [mkSpaceDomain b false]).
  { rewrite fmap_app. f_equal. cbn. f_equal.
    unfold markDefault. cbn. by rewrite bool_decide_eq_false_2. }
  assert (Hhas : hasDomain a (domainsOf space ++ [mkSpaceDomain b false])
                 ↔ hasDomain a (domainsOf space)).
  { rewrite !hasDomain_elem_of. split.
    - intros (d & [Hd | Hd%list_elem_of_singleton]%elem_of_app & Hn).
      + eauto.
      + subst d. cbn in Hn. congruence.
    - intros (d & Hd & Hn). exists d. split; [| done].
      apply elem_of_app. by left. }
  destruct (decide (hasDomain a (domainsOf space))) as [Hh | Hh].
  - rewrite (setDefaultDomain_found a space) by done.
    rewrite setDefaultDomain_found
      by (rewrite domainsOf_set_Domains; by apply Hhas).
    cbn [fst snd]. by rewrite !domainsOf_set_Domains, !set_Domains_twice, Hmark.
  - rewrite (setDefaultDomain_missing a space) by done.
    rewrite setDefaultDomain_missing
      by (rewrite domainsOf_set_Domains; by rewrite Hhas).
    cbn [fst snd]. by rewrite !domainsOf_set_Domains, !set_Domains_twice, Hmark.
Qed.

Lemma append_set_default_commute_witness :
  "b.com" ≠ "c.com"
  ∧ setDefaultDomain "b.com" (appendDomain "c.com" twoDomainSpace).2
    = (None, (appendDomain "c.com" (setDefaultDomain "b.com" twoDomainSpace).2).2).
Proof.
  assert (Hne : "b.com" ≠ "c.com") by done.
  split; [exact Hne |].
  apply (append_set_default_commute twoDomainSpace "b.com" "c.com" Hne).
Defined.
